(** * CRC-32 calculator (src/main.py, class [CRC32Calculator])

    A shallow embedding of the computational core of the repository: the
    lookup-table generator, the two CRC strategies (bit by bit and table
    driven), the FCS derivation and the frame validation.

    Python integers are unbounded, so registers are modelled as [Z] and every
    [& 0xFFFFFFFF] of the source is written out.  A [bytes] object is a list
    of integers, each in [0, 256); the embedding takes a [list Z] and the
    predicate [is_bytes] records the range, so that the out-of-range branch of
    the table lookup stays visible in the model.  The calculator object is a
    record holding [crc_table]; methods run in a small state-and-exception
    monad over that record. *)

From Stdlib Require Import ZArith List Bool Lia.
Import ListNotations.

Local Open Scope Z_scope.

(** ** Class constants (main.py, lines 7-9) *)

Definition POLYNOMIAL : Z := 0x04C11DB7.
Definition INITIAL_VALUE : Z := 0xFFFFFFFF.
Definition FINAL_XOR : Z := 0xFFFFFFFF.

(** ** The calculator object *)

Record CRC32Calculator : Type := mkCalculator { crc_table : list Z }.

(** A [bytes] value: every element is an integer in [0, 256). *)
Definition is_bytes (data : list Z) : Prop :=
  Forall (fun byte => 0 <= byte < 256) data.

Definition is_bytesb (data : list Z) : bool :=
  forallb (fun byte => (0 <=? byte) && (byte <? 256)) data.

(** ** Method monad: calculator state plus Python exceptions *)

Inductive exn : Type := IndexError.

Inductive result (A : Type) : Type :=
| Ok (a : A)
| Raise (e : exn).
Arguments Ok {A} a.
Arguments Raise {A} e.

Definition M (A : Type) : Type := CRC32Calculator -> result A * CRC32Calculator.

Definition ret {A} (a : A) : M A := fun self => (Ok a, self).

Definition raise {A} (e : exn) : M A := fun self => (Raise e, self).

Definition bind {A B} (m : M A) (k : A -> M B) : M B :=
  fun self =>
    match m self with
    | (Ok a, self') => k a self'
    | (Raise e, self') => (Raise e, self')
    end.

(** Attribute read [self.crc_table]. *)
Definition get_crc_table : M (list Z) := fun self => (Ok (crc_table self), self).

Declare Scope crc_scope.
Delimit Scope crc_scope with crc.
Notation "x <- m ;; k" := (bind m (fun x => k))
  (at level 61, m at next level, right associativity) : crc_scope.
Notation "' pat <- m ;; k" := (bind m (fun x => match x with pat => k end))
  (at level 61, pat pattern, m at next level, right associativity) : crc_scope.
Local Open Scope crc_scope.

(** Python list subscription [l[i]]: indices in [0, len) select from the
    front, indices in [-len, 0) from the back, everything else raises
    [IndexError]. *)
Definition py_getitem (l : list Z) (i : Z) : M Z :=
  let len := Z.of_nat (length l) in
  if (0 <=? i) && (i <? len) then
    match nth_error l (Z.to_nat i) with
    | Some v => ret v
    | None => raise IndexError
    end
  else if (- len <=? i) && (i <? 0) then
    match nth_error l (Z.to_nat (len + i)) with
    | Some v => ret v
    | None => raise IndexError
    end
  else raise IndexError.

(** [for x in xs: acc = body(acc, x)] with [acc] the loop-carried local. *)
Fixpoint for_each {A B} (xs : list A) (body : B -> A -> M B) (acc : B) : M B :=
  match xs with
  | [] => ret acc
  | x :: xs' => acc' <- body acc x ;; for_each xs' body acc'
  end.

(** ** Polynomial division round

    The body of [for _ in range(8)], identical in [_generate_crc_table]
    (lines 21-25) and in [_calculate_crc_direct] (lines 38-42):
<<
      if crc & 0x80000000:
          crc = (crc << 1) ^ self.POLYNOMIAL
      else:
          crc = crc << 1
      crc &= 0xFFFFFFFF
>> *)
Definition crc_round (crc : Z) : Z :=
  let crc :=
    if Z.land crc 0x80000000 =? 0
    then Z.shiftl crc 1
    else Z.lxor (Z.shiftl crc 1) POLYNOMIAL in
  Z.land crc 0xFFFFFFFF.

(** [for _ in range(n): crc = round(crc)]. *)
Fixpoint for_range (n : nat) (body : Z -> Z) (crc : Z) : Z :=
  match n with
  | O => crc
  | S n' => for_range n' body (body crc)
  end.

(** [range(n)] as the list [0; 1; ...; n-1]. *)
Definition range (n : nat) : list Z := map Z.of_nat (seq 0 n).

(** ** [_generate_crc_table] (lines 14-27) *)

Definition table_entry (i : Z) : Z :=
  let crc := Z.shiftl i 24 in
  for_range 8 crc_round crc.

Definition _generate_crc_table : list Z :=
  fold_left (fun table i => table ++ [table_entry i]) (range 256) [].

(** ** [__init__] (lines 11-12) *)

Definition __init__ : CRC32Calculator :=
  {| crc_table := _generate_crc_table |}.

(** ** [_calculate_crc_direct] (lines 29-43) *)

Definition direct_body (crc byte : Z) : M Z :=
  let crc := Z.lxor crc (Z.shiftl byte 24) in
  ret (for_range 8 crc_round crc).

Definition _calculate_crc_direct (data : list Z) : M Z :=
  crc <- for_each data direct_body INITIAL_VALUE ;;
  ret (Z.lxor crc FINAL_XOR).

(** ** [_calculate_crc_table] (lines 45-53) *)

Definition table_index (crc byte : Z) : Z := Z.lxor (Z.shiftr crc 24) byte.

Definition table_body (crc byte : Z) : M Z :=
  let table_index := table_index crc byte in
  table <- get_crc_table ;;
  entry <- py_getitem table table_index ;;
  ret (Z.land (Z.lxor (Z.shiftl crc 8) entry) 0xFFFFFFFF).

Definition _calculate_crc_table (data : list Z) : M Z :=
  crc <- for_each data table_body INITIAL_VALUE ;;
  ret (Z.lxor crc FINAL_XOR).

(** ** [calculate_crc] (lines 55-67); [use_table] defaults to [True] *)

Definition calculate_crc (data : list Z) (use_table : bool) : M Z :=
  if use_table
  then _calculate_crc_table data
  else _calculate_crc_direct data.

(** ** [calculate_fcs] (lines 69-80) *)

Definition calculate_fcs (data : list Z) : M (Z * Z) :=
  crc <- calculate_crc data true ;;
  let fcs := Z.lxor crc 0xFFFFFFFF in
  ret (crc, fcs).

(** ** [validate_frame] (lines 82-93) *)

Definition validate_frame (data : list Z) (received_fcs : Z) : M (bool * Z * Z) :=
  '(calculated_crc, calculated_fcs) <- calculate_fcs data ;;
  let is_valid := calculated_fcs =? received_fcs in
  ret (is_valid, calculated_crc, calculated_fcs).

(** The data of the demonstration menu: [b"HELLO"]. *)
Definition HELLO : list Z := [72; 69; 76; 76; 79].

(** The register after consuming [data] bit by bit, starting from [crc]:
    the pure content of the loop of [_calculate_crc_direct]. *)
Definition register_after (data : list Z) (crc : Z) : Z :=
  fold_left
    (fun crc byte => for_range 8 crc_round (Z.lxor crc (Z.shiftl byte 24)))
    data crc.

(** The CRC and the FCS as plain functions of the data. *)
Definition crc_of (data : list Z) : Z :=
  Z.lxor (register_after data INITIAL_VALUE) FINAL_XOR.

Definition fcs_of (data : list Z) : Z := Z.lxor (crc_of data) 0xFFFFFFFF.

(** Flipping bit number [bit] of a value, as the demonstration does with
    [fcs1 ^ 0x00000001] for bit 0. *)
Definition flip_bit (value : Z) (bit : nat) : Z :=
  Z.lxor value (Z.shiftl 1 (Z.of_nat bit)).

(** ** The table entry in the words of the specification

    A 32-bit register starts at [i << 24]; eight times, when its
    most-significant bit is set it is shifted left by one and XORed with the
    polynomial, otherwise only shifted; after each step it is reduced to 32
    bits. *)
Definition spec_division_step (register : Z) : Z :=
  (if Z.testbit register 31
   then Z.lxor (Z.shiftl register 1) 0x04C11DB7
   else Z.shiftl register 1) mod 2 ^ 32.

Definition spec_table_entry (i : Z) : Z :=
  Nat.iter 8 spec_division_step (Z.shiftl i 24).

(** ** Calls on one calculator instance

    The three public operations, as requests a caller can issue against the
    same object one after the other. *)
Inductive call : Type :=
| CalculateCrc (data : list Z) (use_table : bool)
| CalculateFcs (data : list Z)
| ValidateFrame (data : list Z) (received_fcs : Z).

Inductive output : Type :=
| CrcOutput (r : result Z)
| FcsOutput (r : result (Z * Z))
| ValidateOutput (r : result (bool * Z * Z)).

Definition run_call (c : call) (self : CRC32Calculator)
  : output * CRC32Calculator :=
  match c with
  | CalculateCrc data use_table =>
      let '(r, self') := calculate_crc data use_table self in (CrcOutput r, self')
  | CalculateFcs data =>
      let '(r, self') := calculate_fcs data self in (FcsOutput r, self')
  | ValidateFrame data received_fcs =>
      let '(r, self') := validate_frame data received_fcs self in
      (ValidateOutput r, self')
  end.

(** The calculator after a sequence of calls. *)
Fixpoint run_calls (cs : list call) (self : CRC32Calculator) : CRC32Calculator :=
  match cs with
  | [] => self
  | c :: cs' => run_calls cs' (snd (run_call c self))
  end.

(** A computation that hands the calculator back as it received it. *)
Definition preserves {A} (m : M A) : Prop :=
  forall self, snd (m self) = self.

(** ** Inputs beyond [bytes]

    The methods do not check their argument: any sequence of integers reaches
    the loops.  [is_small_ints] is the range of elements on which subscripting
    the table still succeeds (Python counts a negative index from the end of
    the list); [low8] keeps the low eight bits of every element, Python's
    [x % 256]. *)
Definition is_small_ints (data : list Z) : Prop :=
  Forall (fun x => -256 <= x < 256) data.

Definition is_small_intsb (data : list Z) : bool :=
  forallb (fun x => (-256 <=? x) && (x <? 256)) data.

Definition low8 (data : list Z) : list Z := map (fun x => x mod 256) data.

(** ** Corrupting a frame

    [xor_bytes w mask] flips in [w] the bits set in [mask], byte by byte.
    [GENERATOR_BYTES] is the generator polynomial with its leading
    coefficient, 0x104C11DB7, as five bytes. *)
Definition xor_bytes (w mask : list Z) : list Z :=
  map (fun '(a, b) => Z.lxor a b) (combine w mask).

Definition GENERATOR_BYTES : list Z := [0x01; 0x04; 0xC1; 0x1D; 0xB7].

(** * Bit-level facts about one division round *)

Section Rounds.

Local Ltac bool_cases :=
  repeat match goal with
         | |- context [Z.testbit ?a ?i] =>
             let b := fresh "b" in
             generalize (Z.testbit a i); intro b
         end;
  repeat match goal with b : bool |- _ => destruct b end;
  try reflexivity.

Lemma land_pow2_eqb (a n : Z) :
  0 <= n -> (Z.land a (2 ^ n) =? 0) = negb (Z.testbit a n).
Proof.
  intros Hn. destruct (Z.testbit a n) eqn:Hb; cbn [negb].
  - apply Z.eqb_neq. intro H0.
    assert (Ht : Z.testbit (Z.land a (2 ^ n)) n = true).
    { rewrite Z.land_spec, Hb, Z.pow2_bits_eqb, Z.eqb_refl by lia. reflexivity. }
    rewrite H0, Z.bits_0 in Ht. discriminate.
  - apply Z.eqb_eq. apply Z.bits_inj'. intros m Hm.
    rewrite Z.land_spec, Z.bits_0, Z.pow2_bits_eqb by lia.
    destruct (Z.eqb_spec n m) as [<- | _].
    + rewrite Hb. reflexivity.
    + apply andb_false_r.
Qed.

(** [crc & 0x80000000] is truthy exactly when bit 31 is set. *)
Lemma msb_test (crc : Z) :
  (Z.land crc 0x80000000 =? 0) = negb (Z.testbit crc 31).
Proof. apply (land_pow2_eqb crc 31). lia. Qed.

Lemma crc_round_testbit (crc j : Z) :
  0 <= j ->
  Z.testbit (crc_round crc) j =
    (j <? 32) &&
    xorb (Z.testbit crc (j - 1)) (Z.testbit crc 31 && Z.testbit POLYNOMIAL j).
Proof.
  intros Hj. unfold crc_round.
  change 0xFFFFFFFF with (Z.ones 32).
  rewrite msb_test, Z.land_spec, Z.testbit_ones_nonneg by lia.
  rewrite andb_comm.
  destruct (Z.testbit crc 31); simpl negb; cbv iota.
  - rewrite Z.lxor_spec, Z.shiftl_spec by lia. reflexivity.
  - rewrite Z.shiftl_spec by lia. simpl andb. rewrite xorb_false_r. reflexivity.
Qed.

(** A round is linear over XOR. *)
Lemma crc_round_lxor (a b : Z) :
  crc_round (Z.lxor a b) = Z.lxor (crc_round a) (crc_round b).
Proof.
  apply Z.bits_inj'. intros j Hj.
  rewrite Z.lxor_spec, !crc_round_testbit, !Z.lxor_spec by lia.
  destruct (j <? 32); cbn [andb]; [| reflexivity].
  bool_cases.
Qed.

Lemma crc_round_range (crc : Z) : 0 <= crc_round crc < 2 ^ 32.
Proof.
  unfold crc_round. change 0xFFFFFFFF with (Z.ones 32).
  rewrite Z.land_ones by lia. apply Z.mod_pos_bound. lia.
Qed.

(** Below bit 31 a round is a plain doubling. *)
Lemma crc_round_small (x : Z) : 0 <= x < 2 ^ 31 -> crc_round x = 2 * x.
Proof.
  intros Hx. unfold crc_round.
  rewrite msb_test.
  assert (Hb : Z.testbit x 31 = false).
  { destruct (Z.eq_dec x 0) as [-> | Hne]; [apply Z.bits_0 |].
    apply Z.bits_above_log2; [lia |].
    apply Z.log2_lt_pow2; lia. }
  rewrite Hb. simpl negb. cbv iota.
  change 0xFFFFFFFF with (Z.ones 32).
  rewrite Z.land_ones, Z.shiftl_mul_pow2 by lia.
  rewrite Z.mod_small; lia.
Qed.

Lemma for_range_lxor (n : nat) (a b : Z) :
  for_range n crc_round (Z.lxor a b) =
    Z.lxor (for_range n crc_round a) (for_range n crc_round b).
Proof.
  revert a b. induction n as [| n IH]; intros a b; simpl.
  - reflexivity.
  - rewrite crc_round_lxor. apply IH.
Qed.

Lemma for_range_range (n : nat) (crc : Z) :
  0 <= crc < 2 ^ 32 -> 0 <= for_range n crc_round crc < 2 ^ 32.
Proof.
  revert crc. induction n as [| n IH]; intros crc Hc; simpl.
  - exact Hc.
  - apply IH, crc_round_range.
Qed.

Lemma for_range_S_range (n : nat) (crc : Z) :
  0 <= for_range (S n) crc_round crc < 2 ^ 32.
Proof. simpl. apply for_range_range, crc_round_range. Qed.

(** While the register stays below bit 31, [n] rounds multiply by [2^n]. *)
Lemma for_range_small (n : nat) (x : Z) :
  0 <= x -> x * 2 ^ Z.of_nat n < 2 ^ 32 ->
  for_range n crc_round x = x * 2 ^ Z.of_nat n.
Proof.
  revert x. induction n as [| n IH]; intros x Hx Hlt.
  - simpl. lia.
  - rewrite Nat2Z.inj_succ, Z.pow_succ_r in * by lia.
    assert (Hp : 0 < 2 ^ Z.of_nat n) by (apply Z.pow_pos_nonneg; lia).
    simpl for_range. rewrite crc_round_small by nia.
    rewrite IH by nia. ring.
Qed.

End Rounds.

(** * The lookup table *)

Section Table.

Lemma fold_append_map {A B} (f : A -> B) (l : list A) (acc : list B) :
  fold_left (fun table i => table ++ [f i]) l acc = acc ++ map f l.
Proof.
  revert acc. induction l as [| x l IH]; intros acc; simpl.
  - symmetry. apply app_nil_r.
  - rewrite IH, <- app_assoc. reflexivity.
Qed.

Lemma generate_crc_table_map :
  _generate_crc_table = map table_entry (range 256).
Proof. unfold _generate_crc_table. rewrite fold_append_map. reflexivity. Qed.

Lemma generate_crc_table_length : length _generate_crc_table = 256%nat.
Proof.
  rewrite generate_crc_table_map. unfold range.
  rewrite !length_map, length_seq. reflexivity.
Qed.

Lemma generate_crc_table_nth (i : Z) :
  0 <= i < 256 ->
  nth_error _generate_crc_table (Z.to_nat i) = Some (table_entry i).
Proof.
  intros Hi. rewrite generate_crc_table_map. unfold range.
  rewrite map_map.
  rewrite nth_error_map, nth_error_seq.
  destruct (Nat.ltb_spec (Z.to_nat i) 256) as [_ | Hge]; [| lia].
  simpl. rewrite Z2Nat.id by lia. reflexivity.
Qed.

Lemma table_entry_range (i : Z) : 0 <= table_entry i < 2 ^ 32.
Proof. unfold table_entry. apply for_range_S_range. Qed.

(** Subscripting the table of a constructed calculator with a byte-sized
    index succeeds and leaves the calculator as it was. *)
Lemma getitem_table (i : Z) (self : CRC32Calculator) :
  0 <= i < 256 ->
  py_getitem _generate_crc_table i self = (Ok (table_entry i), self).
Proof.
  intros Hi. unfold py_getitem.
  rewrite generate_crc_table_length.
  destruct (Z.leb_spec 0 i); [| lia].
  destruct (Z.ltb_spec i (Z.of_nat 256)); [| lia].
  cbn [andb]. rewrite generate_crc_table_nth by lia. reflexivity.
Qed.

End Table.

(** * One byte: eight rounds against one table lookup *)

Section ByteStep.

Lemma testbit_above (x n j : Z) :
  0 <= x < 2 ^ n -> 0 <= n <= j -> Z.testbit x j = false.
Proof.
  intros Hx Hj. rewrite <- (Z.mod_small x (2 ^ n)) by lia.
  apply Z.mod_pow2_bits_high. lia.
Qed.

(** Splitting the register after the byte has been folded in: the top
    eight bits are the table index, the rest is the old low part. *)
Lemma split_register (crc byte : Z) :
  Z.lxor crc (Z.shiftl byte 24) =
    Z.lxor (Z.shiftl (table_index crc byte) 24) (Z.land crc (Z.ones 24)).
Proof.
  apply Z.bits_inj'. intros j Hj. unfold table_index.
  rewrite !Z.lxor_spec, !Z.shiftl_spec, Z.land_spec by lia.
  rewrite Z.testbit_ones_nonneg by lia.
  destruct (Z.ltb_spec j 24) as [Hlt | Hge].
  - rewrite !(Z.testbit_neg_r _ (j - 24)) by lia.
    rewrite andb_true_r. destruct (Z.testbit crc j); reflexivity.
  - rewrite Z.lxor_spec, Z.shiftr_spec by lia.
    replace (j - 24 + 24) with j by lia.
    rewrite andb_false_r, xorb_false_r. reflexivity.
Qed.

Lemma low_part_range (crc : Z) : 0 <= Z.land crc (Z.ones 24) < 2 ^ 24.
Proof. rewrite Z.land_ones by lia. apply Z.mod_pos_bound. lia. Qed.

(** The central identity: the table-driven update of the register equals
    eight division rounds after folding the byte into the top bits. *)
Lemma table_step_direct (crc byte : Z) :
  Z.land (Z.lxor (Z.shiftl crc 8) (table_entry (table_index crc byte)))
         0xFFFFFFFF =
    for_range 8 crc_round (Z.lxor crc (Z.shiftl byte 24)).
Proof.
  rewrite split_register, for_range_lxor.
  fold (table_entry (table_index crc byte)).
  pose proof (low_part_range crc) as Hlo.
  rewrite (for_range_small 8 (Z.land crc (Z.ones 24))) by (simpl Z.of_nat; lia).
  pose proof (table_entry_range (table_index crc byte)) as HT.
  set (T := table_entry (table_index crc byte)) in *.
  change (2 ^ Z.of_nat 8) with (2 ^ 8).
  rewrite <- Z.shiftl_mul_pow2 by lia.
  change 0xFFFFFFFF with (Z.ones 32).
  apply Z.bits_inj'. intros j Hj.
  rewrite Z.land_spec, !Z.lxor_spec, !Z.shiftl_spec, Z.land_spec by lia.
  rewrite Z.testbit_ones_nonneg by lia.
  destruct (Z.ltb_spec j 32) as [Hlt | Hge].
  - rewrite andb_true_r, xorb_comm. f_equal.
    destruct (Z.ltb_spec j 8) as [Hlt8 | Hge8].
    + rewrite !(Z.testbit_neg_r _ (j - 8)) by lia. reflexivity.
    + rewrite Z.testbit_ones_nonneg by lia.
      destruct (Z.ltb_spec (j - 8) 24); [| lia].
      rewrite andb_true_r. reflexivity.
  - rewrite andb_false_r.
    rewrite (testbit_above T 32 j) by lia.
    rewrite Z.testbit_ones_nonneg by lia.
    destruct (Z.ltb_spec (j - 8) 24); [lia |].
    rewrite andb_false_r. reflexivity.
Qed.

End ByteStep.

(** * The two loops over the data *)

Section Loops.

Lemma lxor_range (n a b : Z) :
  0 <= n -> 0 <= a < 2 ^ n -> 0 <= b < 2 ^ n -> 0 <= Z.lxor a b < 2 ^ n.
Proof.
  intros Hn Ha Hb.
  assert (Hnn : 0 <= Z.lxor a b) by (apply Z.lxor_nonneg; lia).
  split; [exact Hnn |].
  replace (Z.lxor a b) with (Z.lxor a b mod 2 ^ n).
  - apply Z.mod_pos_bound. lia.
  - rewrite <- Z.land_ones by lia.
    apply Z.bits_inj'. intros j Hj.
    rewrite Z.land_spec, Z.testbit_ones_nonneg by lia.
    destruct (Z.ltb_spec j n) as [Hlt | Hge].
    + apply andb_true_r.
    + rewrite andb_false_r, Z.lxor_spec.
      rewrite (testbit_above a n j), (testbit_above b n j) by lia.
      reflexivity.
Qed.

Lemma table_index_range (crc byte : Z) :
  0 <= crc < 2 ^ 32 -> 0 <= byte < 256 -> 0 <= table_index crc byte < 256.
Proof.
  intros Hc Hb. unfold table_index.
  apply (lxor_range 8); [lia | | lia].
  rewrite Z.shiftr_div_pow2 by lia.
  split; [apply Z.div_pos; lia | apply Z.div_lt_upper_bound; lia].
Qed.

Lemma register_after_range (data : list Z) (crc : Z) :
  0 <= crc < 2 ^ 32 -> 0 <= register_after data crc < 2 ^ 32.
Proof.
  revert crc. unfold register_after.
  induction data as [| byte data IH]; intros crc Hc; cbn [fold_left].
  - exact Hc.
  - apply IH, for_range_S_range.
Qed.

Lemma register_after_app (p q : list Z) (crc : Z) :
  register_after (p ++ q) crc = register_after q (register_after p crc).
Proof. unfold register_after. apply fold_left_app. Qed.

Lemma initial_value_range : 0 <= INITIAL_VALUE < 2 ^ 32.
Proof. unfold INITIAL_VALUE. lia. Qed.

(** The bit-wise loop never fails, whatever the calculator holds. *)
Lemma direct_loop (data : list Z) (crc : Z) (self : CRC32Calculator) :
  for_each data direct_body crc self = (Ok (register_after data crc), self).
Proof.
  revert crc. induction data as [| byte data IH]; intros crc.
  - reflexivity.
  - cbn [for_each]. unfold bind. cbn [direct_body ret]. apply IH.
Qed.

(** On a constructed calculator one table-driven iteration is one
    bit-wise iteration. *)
Lemma table_body_direct (crc byte : Z) :
  0 <= crc < 2 ^ 32 -> 0 <= byte < 256 ->
  table_body crc byte __init__ = direct_body crc byte __init__.
Proof.
  intros Hc Hb. unfold table_body, direct_body, bind, get_crc_table.
  cbn [crc_table __init__].
  rewrite getitem_table by (apply table_index_range; assumption).
  unfold ret. rewrite table_step_direct. reflexivity.
Qed.

Lemma table_loop (data : list Z) (crc : Z) :
  is_bytes data -> 0 <= crc < 2 ^ 32 ->
  for_each data table_body crc __init__ =
    (Ok (register_after data crc), __init__).
Proof.
  intros Hd. revert crc.
  induction Hd as [| byte data Hb _ IH]; intros crc Hc.
  - reflexivity.
  - cbn [for_each]. unfold bind at 1.
    rewrite table_body_direct by assumption.
    cbn [direct_body ret]. rewrite IH by apply for_range_S_range.
    reflexivity.
Qed.

Lemma crc_of_range (data : list Z) : 0 <= crc_of data < 2 ^ 32.
Proof.
  unfold crc_of. apply (lxor_range 32); [lia | | unfold FINAL_XOR; lia].
  apply register_after_range, initial_value_range.
Qed.

Lemma fcs_of_range (data : list Z) : 0 <= fcs_of data < 2 ^ 32.
Proof.
  unfold fcs_of. apply (lxor_range 32); [lia | apply crc_of_range | lia].
Qed.

Lemma calculate_crc_direct_run (data : list Z) (self : CRC32Calculator) :
  _calculate_crc_direct data self = (Ok (crc_of data), self).
Proof.
  unfold _calculate_crc_direct, bind. rewrite direct_loop. reflexivity.
Qed.

Lemma calculate_crc_table_run (data : list Z) :
  is_bytes data ->
  _calculate_crc_table data __init__ = (Ok (crc_of data), __init__).
Proof.
  intros Hd. unfold _calculate_crc_table, bind.
  rewrite table_loop by (auto using initial_value_range). reflexivity.
Qed.

Lemma calculate_crc_run (data : list Z) (use_table : bool) :
  is_bytes data ->
  calculate_crc data use_table __init__ = (Ok (crc_of data), __init__).
Proof.
  intros Hd. destruct use_table; cbn [calculate_crc].
  - apply calculate_crc_table_run, Hd.
  - apply calculate_crc_direct_run.
Qed.

Lemma calculate_fcs_run (data : list Z) :
  is_bytes data ->
  calculate_fcs data __init__ = (Ok (crc_of data, fcs_of data), __init__).
Proof.
  intros Hd. unfold calculate_fcs, bind.
  rewrite calculate_crc_run by assumption. reflexivity.
Qed.

Lemma validate_frame_run (data : list Z) (received_fcs : Z) :
  is_bytes data ->
  validate_frame data received_fcs __init__ =
    (Ok (fcs_of data =? received_fcs, crc_of data, fcs_of data), __init__).
Proof.
  intros Hd. unfold validate_frame, bind.
  rewrite calculate_fcs_run by assumption. reflexivity.
Qed.

Lemma is_bytesb_sound (data : list Z) : is_bytesb data = true -> is_bytes data.
Proof.
  unfold is_bytesb, is_bytes. rewrite forallb_forall, Forall_forall.
  intros H byte Hin. specialize (H byte Hin). lia.
Qed.

End Loops.

(** * The calculator is never written *)

Section Frame.

Lemma preserves_ret {A} (a : A) : preserves (ret a).
Proof. intros self. reflexivity. Qed.

Lemma preserves_raise {A} (e : exn) : preserves (@raise A e).
Proof. intros self. reflexivity. Qed.

Lemma preserves_get_crc_table : preserves get_crc_table.
Proof. intros self. reflexivity. Qed.

Lemma preserves_bind {A B} (m : M A) (k : A -> M B) :
  preserves m -> (forall a, preserves (k a)) -> preserves (bind m k).
Proof.
  intros Hm Hk self. unfold bind.
  specialize (Hm self). destruct (m self) as [[a | e] self']; simpl in Hm; subst.
  - apply Hk.
  - reflexivity.
Qed.

Lemma preserves_py_getitem (l : list Z) (i : Z) : preserves (py_getitem l i).
Proof.
  unfold py_getitem.
  destruct (_ && _); [| destruct (_ && _)];
    try destruct (nth_error _ _);
    auto using preserves_ret, preserves_raise.
Qed.

Lemma preserves_for_each {A B} (xs : list A) (body : B -> A -> M B) (acc : B) :
  (forall acc x, preserves (body acc x)) -> preserves (for_each xs body acc).
Proof.
  intros Hbody. revert acc.
  induction xs as [| x xs IH]; intros acc; cbn [for_each].
  - apply preserves_ret.
  - apply preserves_bind; auto.
Qed.

Create HintDb frame.
Hint Resolve preserves_ret preserves_raise preserves_get_crc_table
  preserves_py_getitem : frame.
Hint Extern 2 (preserves (bind _ _)) =>
  apply preserves_bind; [| intros ?] : frame.
Hint Extern 2 (preserves (for_each _ _ _)) =>
  apply preserves_for_each; intros ? ? : frame.

Lemma preserves_direct_body (crc byte : Z) : preserves (direct_body crc byte).
Proof. unfold direct_body. auto with frame. Qed.

Lemma preserves_table_body (crc byte : Z) : preserves (table_body crc byte).
Proof. unfold table_body. auto 6 with frame. Qed.

Hint Resolve preserves_direct_body preserves_table_body : frame.

Lemma preserves_calculate_crc (data : list Z) (use_table : bool) :
  preserves (calculate_crc data use_table).
Proof.
  destruct use_table; cbn [calculate_crc];
    unfold _calculate_crc_table, _calculate_crc_direct; auto 6 with frame.
Qed.

Hint Resolve preserves_calculate_crc : frame.

Lemma preserves_calculate_fcs (data : list Z) : preserves (calculate_fcs data).
Proof. unfold calculate_fcs. auto 6 with frame. Qed.

Hint Resolve preserves_calculate_fcs : frame.

Lemma preserves_validate_frame (data : list Z) (received_fcs : Z) :
  preserves (validate_frame data received_fcs).
Proof.
  unfold validate_frame. apply preserves_bind; [auto with frame |].
  intros [crc fcs]. apply preserves_ret.
Qed.

Lemma run_call_state (c : call) (self : CRC32Calculator) :
  snd (run_call c self) = self.
Proof.
  destruct c as [data use_table | data | data received_fcs]; cbn [run_call].
  - pose proof (preserves_calculate_crc data use_table self) as H.
    destruct (calculate_crc data use_table self); exact H.
  - pose proof (preserves_calculate_fcs data self) as H.
    destruct (calculate_fcs data self); exact H.
  - pose proof (preserves_validate_frame data received_fcs self) as H.
    destruct (validate_frame data received_fcs self); exact H.
Qed.

Lemma run_calls_state (cs : list call) (self : CRC32Calculator) :
  run_calls cs self = self.
Proof.
  induction cs as [| c cs IH]; cbn [run_calls].
  - reflexivity.
  - rewrite run_call_state. exact IH.
Qed.

End Frame.

(** * Properties of the calculator *)

Section Claims.

Lemma is_bytes_HELLO : is_bytes HELLO.
Proof. apply is_bytesb_sound. reflexivity. Qed.

Lemma crc_round_spec (register : Z) :
  crc_round register = spec_division_step register.
Proof.
  unfold crc_round, spec_division_step, POLYNOMIAL.
  rewrite msb_test. change 0xFFFFFFFF with (Z.ones 32).
  rewrite Z.land_ones by lia.
  destruct (Z.testbit register 31); reflexivity.
Qed.

Lemma for_range_iter (n : nat) (body : Z -> Z) (crc : Z) :
  for_range n body crc = Nat.iter n body crc.
Proof.
  revert crc. induction n as [| n IH]; intros crc.
  - reflexivity.
  - rewrite Nat.iter_succ_r. cbn [for_range]. apply IH.
Qed.

Lemma table_entry_spec (i : Z) : table_entry i = spec_table_entry i.
Proof.
  unfold table_entry, spec_table_entry. rewrite for_range_iter.
  generalize (Z.shiftl i 24). generalize 8%nat.
  induction n as [| n IH]; intros z.
  - reflexivity.
  - rewrite !Nat.iter_succ, IH. apply crc_round_spec.
Qed.

Lemma flip_bit_neq (value : Z) (bit : nat) : flip_bit value bit <> value.
Proof.
  unfold flip_bit. intros Heq.
  assert (H0 : Z.shiftl 1 (Z.of_nat bit) = 0).
  { transitivity (Z.lxor value (Z.lxor value (Z.shiftl 1 (Z.of_nat bit)))).
    - rewrite <- Z.lxor_assoc, Z.lxor_nilpotent, Z.lxor_0_l. reflexivity.
    - rewrite Heq. apply Z.lxor_nilpotent. }
  rewrite Z.shiftl_mul_pow2 in H0 by lia.
  assert (0 < 2 ^ Z.of_nat bit) by (apply Z.pow_pos_nonneg; lia).
  lia.
Qed.

(** C1. On a constructed calculator and for every byte sequence (empty,
    one byte, or of any length), [calculate_crc] returns a value under both
    strategies, and the value of the table-driven strategy is the value of
    the bit-wise strategy. *)
Theorem strategies_agree (d : list Z) :
  is_bytes d ->
  exists crc,
    calculate_crc d true __init__ = (Ok crc, __init__) /\
    calculate_crc d false __init__ = (Ok crc, __init__).
Proof.
  intros Hd. exists (crc_of d). split; apply calculate_crc_run, Hd.
Qed.

Lemma strategies_agree_witness :
  is_bytes HELLO /\
  exists crc,
    calculate_crc HELLO true __init__ = (Ok crc, __init__) /\
    calculate_crc HELLO false __init__ = (Ok crc, __init__).
Proof.
  split.
  - apply is_bytesb_sound. reflexivity.
  - apply (strategies_agree HELLO). apply is_bytesb_sound. reflexivity.
Defined.

(** C2. The generated table has exactly 256 entries, and for every index
    [i] in 0..255 entry [i] is the register obtained from [i << 24] after
    eight division steps with polynomial 0x04C11DB7, each step reduced to
    32 bits. *)
Theorem table_entries_spec (i : Z) :
  0 <= i < 256 ->
  length (crc_table __init__) = 256%nat /\
  nth_error (crc_table __init__) (Z.to_nat i) = Some (spec_table_entry i).
Proof.
  intros Hi. cbn [crc_table __init__]. split.
  - apply generate_crc_table_length.
  - rewrite generate_crc_table_nth by assumption.
    rewrite table_entry_spec. reflexivity.
Qed.

Lemma table_entries_spec_witness :
  0 <= 1 < 256 /\
  length (crc_table __init__) = 256%nat /\
  nth_error (crc_table __init__) (Z.to_nat 1) = Some (spec_table_entry 1).
Proof.
  split.
  - lia.
  - apply (table_entries_spec 1). lia.
Defined.

(** C3. For every byte sequence [d], validating [d] against its own FCS
    reports a valid frame, and validating it against that FCS with any single
    bit flipped reports an invalid frame while still returning the correct
    CRC and FCS; for [b"HELLO"] with FCS [F], validating against
    [F XOR 0x00000001] reports invalid and the returned FCS is [F]. *)
Theorem validation_detects_bit_flips (d : list Z) (bit : nat) :
  is_bytes d ->
  (exists crc fcs,
     calculate_fcs d __init__ = (Ok (crc, fcs), __init__) /\
     validate_frame d fcs __init__ = (Ok (true, crc, fcs), __init__) /\
     validate_frame d (flip_bit fcs bit) __init__ =
       (Ok (false, crc, fcs), __init__)) /\
  (exists crc F,
     calculate_fcs HELLO __init__ = (Ok (crc, F), __init__) /\
     validate_frame HELLO (Z.lxor F 0x00000001) __init__ =
       (Ok (false, crc, F), __init__)).
Proof.
  intros Hd. split.
  - exists (crc_of d), (fcs_of d).
    rewrite calculate_fcs_run, !validate_frame_run by assumption.
    rewrite Z.eqb_refl.
    destruct (Z.eqb_spec (fcs_of d) (flip_bit (fcs_of d) bit)) as [Heq | _].
    + exfalso. apply (flip_bit_neq (fcs_of d) bit). symmetry. exact Heq.
    + auto.
  - exists (crc_of HELLO), (fcs_of HELLO).
    rewrite calculate_fcs_run, validate_frame_run by apply is_bytes_HELLO.
    split; [reflexivity |].
    destruct (Z.eqb_spec (fcs_of HELLO) (Z.lxor (fcs_of HELLO) 1)) as [Heq | _].
    + exfalso. apply (flip_bit_neq (fcs_of HELLO) 0). symmetry. exact Heq.
    + reflexivity.
Qed.

Lemma validation_detects_bit_flips_witness :
  is_bytes HELLO /\
  (exists crc fcs,
     calculate_fcs HELLO __init__ = (Ok (crc, fcs), __init__) /\
     validate_frame HELLO fcs __init__ = (Ok (true, crc, fcs), __init__) /\
     validate_frame HELLO (flip_bit fcs 31) __init__ =
       (Ok (false, crc, fcs), __init__)) /\
  (exists crc F,
     calculate_fcs HELLO __init__ = (Ok (crc, F), __init__) /\
     validate_frame HELLO (Z.lxor F 0x00000001) __init__ =
       (Ok (false, crc, F), __init__)).
Proof.
  split.
  - apply is_bytesb_sound. reflexivity.
  - apply (validation_detects_bit_flips HELLO 31).
    apply is_bytesb_sound. reflexivity.
Defined.

(** C4. For every byte sequence [d], [calculate_fcs d] returns the pair
    [(crc, fcs)] in which [crc] is what [calculate_crc d] returns (table
    strategy, the default) and [fcs = crc XOR 0xFFFFFFFF]; hence
    [fcs XOR crc = 0xFFFFFFFF]. *)
Theorem fcs_complement_law (d : list Z) :
  is_bytes d ->
  exists crc fcs,
    calculate_crc d true __init__ = (Ok crc, __init__) /\
    calculate_fcs d __init__ = (Ok (crc, fcs), __init__) /\
    fcs = Z.lxor crc 0xFFFFFFFF /\
    Z.lxor fcs crc = 0xFFFFFFFF.
Proof.
  intros Hd. exists (crc_of d), (fcs_of d).
  rewrite calculate_crc_run, calculate_fcs_run by assumption.
  repeat split. unfold fcs_of.
  rewrite (Z.lxor_comm (crc_of d)), Z.lxor_assoc, Z.lxor_nilpotent.
  apply Z.lxor_0_r.
Qed.

Lemma fcs_complement_law_witness :
  is_bytes HELLO /\
  exists crc fcs,
    calculate_crc HELLO true __init__ = (Ok crc, __init__) /\
    calculate_fcs HELLO __init__ = (Ok (crc, fcs), __init__) /\
    fcs = Z.lxor crc 0xFFFFFFFF /\
    Z.lxor fcs crc = 0xFFFFFFFF.
Proof.
  split.
  - apply is_bytesb_sound. reflexivity.
  - apply (fcs_complement_law HELLO). apply is_bytesb_sound. reflexivity.
Defined.

(** C5. For every byte sequence [d] and every [received_fcs],
    [validate_frame d received_fcs] returns [(is_valid, crc, fcs)] where
    [(crc, fcs)] is what [calculate_fcs d] returns, and [is_valid] is true
    exactly when [fcs = received_fcs]. *)
Theorem validate_frame_contract (d : list Z) (received_fcs : Z) :
  is_bytes d ->
  exists is_valid crc fcs,
    calculate_fcs d __init__ = (Ok (crc, fcs), __init__) /\
    validate_frame d received_fcs __init__ =
      (Ok (is_valid, crc, fcs), __init__) /\
    (is_valid = true <-> fcs = received_fcs).
Proof.
  intros Hd. exists (fcs_of d =? received_fcs), (crc_of d), (fcs_of d).
  rewrite calculate_fcs_run, validate_frame_run by assumption.
  repeat split; intros H; apply Z.eqb_eq; exact H.
Qed.

Lemma validate_frame_contract_witness :
  is_bytes HELLO /\
  exists is_valid crc fcs,
    calculate_fcs HELLO __init__ = (Ok (crc, fcs), __init__) /\
    validate_frame HELLO 2362953146 __init__ =
      (Ok (is_valid, crc, fcs), __init__) /\
    (is_valid = true <-> fcs = 2362953146).
Proof.
  split.
  - apply is_bytesb_sound. reflexivity.
  - apply (validate_frame_contract HELLO 2362953146).
    apply is_bytesb_sound. reflexivity.
Defined.

(** C6. For the empty byte sequence the loop of either strategy leaves the
    register at 0xFFFFFFFF, the final XOR with 0xFFFFFFFF gives zero, and
    [calculate_crc] returns 0x00000000 with [use_table] true and false. *)
Theorem empty_input_crc (self : CRC32Calculator) :
  for_each [] table_body INITIAL_VALUE self = (Ok 0xFFFFFFFF, self) /\
  for_each [] direct_body INITIAL_VALUE self = (Ok 0xFFFFFFFF, self) /\
  Z.lxor 0xFFFFFFFF FINAL_XOR = 0x00000000 /\
  calculate_crc [] true self = (Ok 0x00000000, self) /\
  calculate_crc [] false self = (Ok 0x00000000, self).
Proof. repeat split. Qed.

(** C7. In the table-driven strategy on a byte sequence, at every position
    the index [(register >> 24) XOR byte] lies in 0..255, below the length
    of the table, so the subscription returns the entry at that index and
    the strategy as a whole returns a value instead of raising. *)
Theorem table_lookup_in_bounds (prefix : list Z) (byte : Z) (rest : list Z) :
  is_bytes (prefix ++ byte :: rest) ->
  exists crc entry value,
    for_each prefix table_body INITIAL_VALUE __init__ = (Ok crc, __init__) /\
    0 <= table_index crc byte < 256 /\
    table_index crc byte < Z.of_nat (length (crc_table __init__)) /\
    nth_error (crc_table __init__) (Z.to_nat (table_index crc byte)) =
      Some entry /\
    py_getitem (crc_table __init__) (table_index crc byte) __init__ =
      (Ok entry, __init__) /\
    _calculate_crc_table (prefix ++ byte :: rest) __init__ =
      (Ok value, __init__).
Proof.
  intros Hd.
  pose proof Hd as Hsplit. unfold is_bytes in Hsplit.
  apply Forall_app in Hsplit. destruct Hsplit as [Hp Hrest].
  assert (Hb : 0 <= byte < 256) by (inversion Hrest; assumption).
  set (crc := register_after prefix INITIAL_VALUE).
  assert (Hc : 0 <= crc < 2 ^ 32)
    by (apply register_after_range, initial_value_range).
  pose proof (table_index_range crc byte Hc Hb) as Hi.
  exists crc, (table_entry (table_index crc byte)),
    (crc_of (prefix ++ byte :: rest)).
  cbn [crc_table __init__]. rewrite generate_crc_table_length.
  repeat split; try lia.
  - apply table_loop; [exact Hp | apply initial_value_range].
  - apply generate_crc_table_nth, Hi.
  - apply getitem_table, Hi.
  - apply calculate_crc_table_run, Hd.
Qed.

Lemma table_lookup_in_bounds_witness :
  is_bytes ([72; 69] ++ 76 :: [76; 79]) /\
  exists crc entry value,
    for_each [72; 69] table_body INITIAL_VALUE __init__ = (Ok crc, __init__) /\
    0 <= table_index crc 76 < 256 /\
    table_index crc 76 < Z.of_nat (length (crc_table __init__)) /\
    nth_error (crc_table __init__) (Z.to_nat (table_index crc 76)) =
      Some entry /\
    py_getitem (crc_table __init__) (table_index crc 76) __init__ =
      (Ok entry, __init__) /\
    _calculate_crc_table ([72; 69] ++ 76 :: [76; 79]) __init__ =
      (Ok value, __init__).
Proof.
  split.
  - apply is_bytesb_sound. reflexivity.
  - apply (table_lookup_in_bounds [72; 69] 76 [76; 79]).
    apply is_bytesb_sound. reflexivity.
Defined.

(** C8. The three operations are deterministic on one calculator instance:
    a call repeated with the same arguments, after the first call and after
    any sequence of other calls on that instance, returns the same output. *)
Theorem calls_are_deterministic
  (self : CRC32Calculator) (c : call) (between : list call) :
  fst (run_call c (run_calls between (snd (run_call c self)))) =
    fst (run_call c self).
Proof. rewrite run_calls_state, run_call_state. reflexivity. Qed.

(** C9. The table is built by the constructor, and no operation writes the
    calculator: after [calculate_crc], [calculate_fcs] or [validate_frame],
    whether it returned or raised, the calculator and its [crc_table] are
    what they were before the call. *)
Theorem table_never_mutated
  (self : CRC32Calculator) (data : list Z) (use_table : bool)
  (received_fcs : Z) :
  crc_table __init__ = _generate_crc_table /\
  snd (calculate_crc data use_table self) = self /\
  snd (calculate_fcs data self) = self /\
  snd (validate_frame data received_fcs self) = self /\
  crc_table (snd (calculate_crc data use_table self)) = crc_table self /\
  crc_table (snd (calculate_fcs data self)) = crc_table self /\
  crc_table (snd (validate_frame data received_fcs self)) = crc_table self.
Proof.
  rewrite preserves_calculate_crc, preserves_calculate_fcs,
    preserves_validate_frame.
  repeat split.
Qed.

(** C10. For every byte sequence and both strategies the CRC and the FCS
    returned lie in [0, 2^32); [validate_frame] compares [received_fcs]
    unmasked, so a [received_fcs] outside that range is reported invalid. *)
Theorem values_are_32_bit
  (d : list Z) (use_table : bool) (received_fcs : Z) :
  is_bytes d ->
  exists crc fcs is_valid,
    calculate_crc d use_table __init__ = (Ok crc, __init__) /\
    calculate_fcs d __init__ = (Ok (crc, fcs), __init__) /\
    validate_frame d received_fcs __init__ =
      (Ok (is_valid, crc, fcs), __init__) /\
    0 <= crc < 2 ^ 32 /\
    0 <= fcs < 2 ^ 32 /\
    (~ 0 <= received_fcs < 2 ^ 32 -> is_valid = false).
Proof.
  intros Hd.
  exists (crc_of d), (fcs_of d), (fcs_of d =? received_fcs).
  rewrite calculate_crc_run, calculate_fcs_run, validate_frame_run
    by assumption.
  pose proof (crc_of_range d) as Hc. pose proof (fcs_of_range d) as Hf.
  repeat split; try lia.
Qed.

Lemma values_are_32_bit_witness :
  is_bytes HELLO /\
  ~ 0 <= 2 ^ 32 + 2362953146 < 2 ^ 32 /\
  (2 ^ 32 + 2362953146) mod 2 ^ 32 = 2362953146 /\
  validate_frame HELLO (2 ^ 32 + 2362953146) __init__ =
    (Ok (false, 1932014149, 2362953146), __init__).
Proof.
  assert (Hd : is_bytes HELLO) by (apply is_bytesb_sound; reflexivity).
  assert (Hout : ~ 0 <= 2 ^ 32 + 2362953146 < 2 ^ 32) by lia.
  split; [exact Hd |]. split; [exact Hout |]. split; [reflexivity |].
  destruct (values_are_32_bit HELLO true (2 ^ 32 + 2362953146) Hd)
    as (crc & fcs & is_valid & Hcrc & Hfcs & Hval & _ & _ & Hinv).
  rewrite Hval, (Hinv Hout).
  rewrite calculate_fcs_run in Hfcs by exact Hd.
  assert (Hc : crc = crc_of HELLO) by congruence.
  assert (Hf : fcs = fcs_of HELLO) by congruence.
  rewrite Hc, Hf. vm_compute. reflexivity.
Defined.

(** Values of the demonstration: [b"HELLO"] under both strategies. *)
Example hello_crc :
  fst (calculate_crc HELLO true __init__) = Ok 0x73283245 /\
  fst (calculate_crc HELLO false __init__) = Ok 0x73283245 /\
  fst (calculate_fcs HELLO __init__) = Ok (0x73283245, 0x8CD7CDBA).
Proof. vm_compute. repeat split. Qed.

(** Outside [bytes] the table lookup can fail: 256 is not a byte. *)
Example not_a_byte :
  fst (calculate_crc [256] true __init__) = Raise IndexError /\
  fst (calculate_crc [256] false __init__) = Ok 0xB1F7404B.
Proof. vm_compute. split; reflexivity. Qed.

End Claims.

(** * Rounds are one-to-one on 32-bit registers *)

Section Injectivity.

(** The polynomial is odd, so the bit shifted out reappears as bit 0 and a
    round loses nothing: only the zero register is sent to zero. *)
Lemma crc_round_zero (x : Z) :
  0 <= x < 2 ^ 32 -> crc_round x = 0 -> x = 0.
Proof.
  intros Hx H0.
  assert (Hbit : forall j, 0 <= j -> Z.testbit (crc_round x) j = false)
    by (intros j _; rewrite H0; apply Z.bits_0).
  assert (H31 : Z.testbit x 31 = false).
  { specialize (Hbit 0 ltac:(lia)).
    rewrite crc_round_testbit in Hbit by lia.
    rewrite Z.testbit_neg_r in Hbit by lia.
    change (Z.testbit POLYNOMIAL 0) with true in Hbit.
    change (0 <? 32) with true in Hbit.
    cbn [andb xorb] in Hbit. rewrite andb_true_r in Hbit. exact Hbit. }
  apply Z.bits_inj'. intros j Hj. rewrite Z.bits_0.
  destruct (Z.lt_ge_cases j 31) as [Hlt | Hge].
  - specialize (Hbit (j + 1) ltac:(lia)).
    rewrite crc_round_testbit in Hbit by lia.
    replace (j + 1 - 1) with j in Hbit by lia.
    rewrite H31 in Hbit. cbn [andb] in Hbit. rewrite xorb_false_r in Hbit.
    destruct (Z.ltb_spec (j + 1) 32); [| lia].
    exact Hbit.
  - destruct (Z.eq_dec j 31) as [-> | Hne]; [exact H31 |].
    apply (testbit_above x 32); lia.
Qed.

Lemma crc_round_inj (a b : Z) :
  0 <= a < 2 ^ 32 -> 0 <= b < 2 ^ 32 -> crc_round a = crc_round b -> a = b.
Proof.
  intros Ha Hb Heq. apply Z.lxor_eq.
  apply crc_round_zero.
  - apply (lxor_range 32); lia.
  - rewrite crc_round_lxor, Heq. apply Z.lxor_nilpotent.
Qed.

Lemma for_range_inj (n : nat) (a b : Z) :
  0 <= a < 2 ^ 32 -> 0 <= b < 2 ^ 32 ->
  for_range n crc_round a = for_range n crc_round b -> a = b.
Proof.
  revert a b. induction n as [| n IH]; intros a b Ha Hb Heq.
  - exact Heq.
  - cbn [for_range] in Heq.
    apply IH in Heq; [| apply crc_round_range | apply crc_round_range].
    apply crc_round_inj; assumption.
Qed.

Lemma for_range_add (n m : nat) (body : Z -> Z) (x : Z) :
  for_range (n + m) body x = for_range m body (for_range n body x).
Proof.
  revert x. induction n as [| n IH]; intros x; cbn [for_range Nat.add].
  - reflexivity.
  - apply IH.
Qed.

Lemma for_range_zero (n : nat) : for_range n crc_round 0 = 0.
Proof. induction n as [| n IH]; [reflexivity | exact IH]. Qed.

End Injectivity.

(** * Integers that are not bytes *)

Section BeyondBytes.

(** A round reads only the low 32 bits of the register. *)
Lemma crc_round_low (x y : Z) :
  (forall j, 0 <= j < 32 -> Z.testbit x j = Z.testbit y j) ->
  crc_round x = crc_round y.
Proof.
  intros Hxy. apply Z.bits_inj'. intros j Hj.
  rewrite !crc_round_testbit by lia.
  destruct (Z.ltb_spec j 32) as [Hlt | Hge]; [| reflexivity].
  cbn [andb]. rewrite (Hxy 31) by lia.
  destruct (Z.eq_dec j 0) as [-> | Hne].
  - rewrite !(Z.testbit_neg_r _ (0 - 1)) by lia. reflexivity.
  - rewrite (Hxy (j - 1)) by lia. reflexivity.
Qed.

(** Hence the bit-wise iteration sees an element through its low 8 bits. *)
Lemma direct_step_low8 (crc byte : Z) :
  for_range 8 crc_round (Z.lxor crc (Z.shiftl byte 24)) =
    for_range 8 crc_round (Z.lxor crc (Z.shiftl (byte mod 256) 24)).
Proof.
  change (for_range 8 crc_round ?x) with (for_range 7 crc_round (crc_round x)).
  f_equal. apply crc_round_low. intros j Hj.
  rewrite !Z.lxor_spec, !Z.shiftl_spec by lia. f_equal.
  destruct (Z.lt_ge_cases j 24) as [Hlt | Hge].
  - rewrite !(Z.testbit_neg_r _ (j - 24)) by lia. reflexivity.
  - change 256 with (2 ^ 8). rewrite Z.mod_pow2_bits_low by lia. reflexivity.
Qed.

Lemma register_after_low8 (data : list Z) (crc : Z) :
  register_after data crc = register_after (low8 data) crc.
Proof.
  revert crc. unfold register_after, low8.
  induction data as [| byte data IH]; intros crc; cbn [fold_left map].
  - reflexivity.
  - rewrite <- direct_step_low8. apply IH.
Qed.

Lemma crc_of_low8 (data : list Z) : crc_of data = crc_of (low8 data).
Proof. unfold crc_of. rewrite register_after_low8. reflexivity. Qed.

Lemma is_bytes_low8 (data : list Z) : is_bytes (low8 data).
Proof.
  unfold is_bytes, low8. apply Forall_forall. intros x Hin.
  apply in_map_iff in Hin. destruct Hin as (y & <- & _).
  apply Z.mod_pos_bound. lia.
Qed.

(** Setting all bits from bit 8 upwards turns [x] into [x - 256]. *)
Lemma lxor_m256 (x : Z) : 0 <= x < 256 -> Z.lxor x (-256) = x - 256.
Proof.
  intros Hx. replace (x - 256) with (x + -256) by lia.
  symmetry. apply Z.add_nocarry_lxor.
  apply Z.bits_inj'. intros j Hj.
  rewrite Z.land_spec, Z.bits_0.
  change (-256) with (Z.lnot (Z.ones 8)).
  rewrite Z.lnot_spec, Z.testbit_ones_nonneg by lia.
  destruct (Z.ltb_spec j 8) as [Hlt | Hge].
  - apply andb_false_r.
  - rewrite (testbit_above x 8 j) by lia. reflexivity.
Qed.

(** For an element in [-256, 0) the index is negative and counts from the
    end of the table to the entry its low 8 bits select. *)
Lemma table_index_negative (crc byte : Z) :
  0 <= crc < 2 ^ 32 -> -256 <= byte < 0 ->
  table_index crc byte = table_index crc (byte mod 256) - 256.
Proof.
  intros Hc Hb.
  assert (Hm : byte mod 256 = byte + 256).
  { symmetry. apply (Z.mod_unique_pos _ _ (-1)); lia. }
  assert (Hr : 0 <= byte mod 256 < 256) by lia.
  rewrite <- lxor_m256 by (apply table_index_range; assumption).
  unfold table_index. rewrite Z.lxor_assoc. f_equal.
  rewrite lxor_m256 by assumption. lia.
Qed.

Lemma getitem_table_negative (i : Z) (self : CRC32Calculator) :
  0 <= i < 256 ->
  py_getitem _generate_crc_table (i - 256) self = (Ok (table_entry i), self).
Proof.
  intros Hi. unfold py_getitem.
  rewrite generate_crc_table_length.
  destruct (Z.leb_spec 0 (i - 256)); [lia |]. cbn [andb].
  destruct (Z.leb_spec (- Z.of_nat 256) (i - 256)); [| lia].
  destruct (Z.ltb_spec (i - 256) 0); [| lia]. cbn [andb].
  replace (Z.of_nat 256 + (i - 256)) with i by lia.
  rewrite generate_crc_table_nth by lia. reflexivity.
Qed.

Lemma getitem_table_outside (i : Z) (self : CRC32Calculator) :
  i < -256 \/ 256 <= i ->
  py_getitem _generate_crc_table i self = (Raise IndexError, self).
Proof.
  intros Hi. unfold py_getitem.
  rewrite generate_crc_table_length.
  destruct (Z.leb_spec 0 i), (Z.ltb_spec i (Z.of_nat 256)); try lia;
    cbn [andb];
    destruct (Z.leb_spec (- Z.of_nat 256) i), (Z.ltb_spec i 0); try lia;
    reflexivity.
Qed.

(** An element outside [-256, 256) pushes the index outside as well. *)
Lemma table_index_outside (crc byte : Z) :
  0 <= crc < 2 ^ 32 -> byte < -256 \/ 256 <= byte ->
  table_index crc byte < -256 \/ 256 <= table_index crc byte.
Proof.
  intros Hc Hb.
  assert (Hhigh : Z.shiftr (table_index crc byte) 8 = Z.shiftr byte 8).
  { unfold table_index.
    rewrite Z.shiftr_lxor, Z.shiftr_shiftr by lia.
    rewrite (Z.shiftr_div_pow2 crc) by lia.
    rewrite Z.div_small by lia. apply Z.lxor_0_l. }
  rewrite !Z.shiftr_div_pow2 in Hhigh by lia.
  change (2 ^ 8) with 256 in Hhigh.
  Z.to_euclidean_division_equations. lia.
Qed.

Lemma table_body_small (crc byte : Z) :
  0 <= crc < 2 ^ 32 -> -256 <= byte < 256 ->
  table_body crc byte __init__ = direct_body crc byte __init__.
Proof.
  intros Hc Hb.
  destruct (Z.lt_ge_cases byte 0) as [Hneg | Hpos].
  - assert (Hr : 0 <= byte mod 256 < 256) by (apply Z.mod_pos_bound; lia).
    unfold table_body, direct_body, bind, get_crc_table.
    cbn [crc_table __init__].
    rewrite table_index_negative by lia.
    rewrite getitem_table_negative by (apply table_index_range; assumption).
    unfold ret. rewrite table_step_direct, <- direct_step_low8. reflexivity.
  - apply table_body_direct; lia.
Qed.

Lemma table_body_outside (crc byte : Z) :
  0 <= crc < 2 ^ 32 -> byte < -256 \/ 256 <= byte ->
  table_body crc byte __init__ = (Raise IndexError, __init__).
Proof.
  intros Hc Hb. unfold table_body, bind, get_crc_table.
  cbn [crc_table __init__].
  rewrite getitem_table_outside by (apply table_index_outside; assumption).
  reflexivity.
Qed.

Lemma table_loop_small (data : list Z) (crc : Z) :
  is_small_ints data -> 0 <= crc < 2 ^ 32 ->
  for_each data table_body crc __init__ =
    (Ok (register_after data crc), __init__).
Proof.
  intros Hd. revert crc.
  induction Hd as [| byte data Hb _ IH]; intros crc Hc.
  - reflexivity.
  - cbn [for_each]. unfold bind at 1.
    rewrite table_body_small by assumption.
    cbn [direct_body ret]. rewrite IH by apply for_range_S_range.
    reflexivity.
Qed.

(** The table-driven loop fails exactly when it meets an element outside
    [-256, 256). *)
Lemma table_loop_raises (data : list Z) (crc : Z) :
  0 <= crc < 2 ^ 32 -> ~ is_small_ints data ->
  for_each data table_body crc __init__ = (Raise IndexError, __init__).
Proof.
  revert crc. induction data as [| byte data IH]; intros crc Hc Hbad.
  - exfalso. apply Hbad. constructor.
  - cbn [for_each]. unfold bind at 1.
    destruct (Z.lt_ge_cases byte (-256)) as [Hlow | Hge].
    { rewrite table_body_outside by lia. reflexivity. }
    destruct (Z.lt_ge_cases byte 256) as [Hlt | Hhigh].
    2: { rewrite table_body_outside by lia. reflexivity. }
    rewrite table_body_small by lia. cbn [direct_body ret].
    apply IH; [apply for_range_S_range |].
    intros Hrest. apply Hbad. constructor; [lia | exact Hrest].
Qed.

Lemma is_small_intsb_sound (data : list Z) :
  is_small_intsb data = true -> is_small_ints data.
Proof.
  unfold is_small_intsb, is_small_ints. rewrite forallb_forall, Forall_forall.
  intros H x Hin. specialize (H x Hin). lia.
Qed.

End BeyondBytes.

(** * What a change of the data does to the register *)

Section Detection.

Lemma register_after_cons (byte : Z) (data : list Z) (crc : Z) :
  register_after (byte :: data) crc =
    register_after data (for_range 8 crc_round (Z.lxor crc (Z.shiftl byte 24))).
Proof. reflexivity. Qed.

Lemma lxor_cancel_r (a b c : Z) : Z.lxor a c = Z.lxor b c -> a = b.
Proof.
  intros H. apply Z.lxor_eq.
  rewrite <- (Z.lxor_0_r (Z.lxor a b)), <- (Z.lxor_nilpotent c).
  rewrite Z.lxor_assoc, <- (Z.lxor_assoc b c c), <- H.
  rewrite (Z.lxor_assoc a c c), Z.lxor_nilpotent, Z.lxor_0_r.
  apply Z.lxor_nilpotent.
Qed.

Lemma lxor_swap4 (a b c d : Z) :
  Z.lxor (Z.lxor a b) (Z.lxor c d) = Z.lxor (Z.lxor a c) (Z.lxor b d).
Proof.
  apply Z.bits_inj'. intros j _. rewrite !Z.lxor_spec.
  destruct (Z.testbit a j), (Z.testbit b j), (Z.testbit c j), (Z.testbit d j);
    reflexivity.
Qed.

Lemma byte_shift_range (byte : Z) :
  0 <= byte < 256 -> 0 <= Z.shiftl byte 24 < 2 ^ 32.
Proof. intros Hb. rewrite Z.shiftl_mul_pow2 by lia. lia. Qed.

(** Two different registers stay different over any common run of bytes. *)
Lemma register_after_inj (data : list Z) (crc1 crc2 : Z) :
  is_bytes data -> 0 <= crc1 < 2 ^ 32 -> 0 <= crc2 < 2 ^ 32 ->
  register_after data crc1 = register_after data crc2 -> crc1 = crc2.
Proof.
  intros Hd. revert crc1 crc2.
  induction Hd as [| byte data Hb _ IH]; intros crc1 crc2 H1 H2 Heq.
  - exact Heq.
  - rewrite !register_after_cons in Heq.
    apply IH in Heq; try apply for_range_S_range.
    pose proof (byte_shift_range byte Hb) as HB.
    apply for_range_inj in Heq; try (apply (lxor_range 32); lia).
    exact (lxor_cancel_r _ _ _ Heq).
Qed.

(** XOR of a multiple of [2^m] with a value below [2^m] is their sum. *)
Lemma lxor_disjoint_add (X x m : Z) :
  0 <= m -> X mod 2 ^ m = 0 -> 0 <= x < 2 ^ m -> Z.lxor X x = X + x.
Proof.
  intros Hm HX Hx. symmetry. apply Z.add_nocarry_lxor.
  apply Z.bits_inj'. intros j Hj. rewrite Z.land_spec, Z.bits_0.
  destruct (Z.lt_ge_cases j m) as [Hlt | Hge].
  - rewrite <- (Z.mod_pow2_bits_low X m j), HX, Z.bits_0 by lia. reflexivity.
  - rewrite (testbit_above x m j) by lia. apply andb_false_r.
Qed.

(** The register difference of two runs, traced back through the rounds
    already done: after [n] rounds it is the image of [X], whose low
    [32 - n] bits are clear; the next pair of bytes lands in the eight bits
    below.  As long as at most 32 rounds are involved nothing has been
    shifted out, so equal registers force equal bytes. *)
Lemma window_registers_differ (w : list Z) :
  forall (w' : list Z) (n : nat) (X s s' : Z),
    length w = length w' -> (n + 8 * length w <= 32)%nat ->
    is_bytes w -> is_bytes w' ->
    0 <= s < 2 ^ 32 -> 0 <= s' < 2 ^ 32 ->
    0 <= X < 2 ^ 32 -> X mod 2 ^ (32 - Z.of_nat n) = 0 ->
    Z.lxor s s' = for_range n crc_round X ->
    register_after w s = register_after w' s' ->
    X = 0 /\ w = w'.
Proof.
  induction w as [| b w IH];
    intros w' n X s s' Hlen Hfit Hw Hw' Hs Hs' HX Hlow Hdiff Heq.
  - destruct w' as [| b' w']; [| discriminate].
    split; [| reflexivity].
    cbn in Heq. subst s'. rewrite Z.lxor_nilpotent in Hdiff.
    rewrite <- (for_range_zero n) in Hdiff at 1.
    symmetry. apply (for_range_inj n); [lia | exact HX | exact Hdiff].
  - destruct w' as [| b' w']; [discriminate |].
    injection Hlen as Hlen. cbn [length] in Hfit.
    apply Forall_cons_iff in Hw. destruct Hw as [Hb Hw].
    apply Forall_cons_iff in Hw'. destruct Hw' as [Hb' Hw'].
    rewrite !register_after_cons in Heq.
    set (e := Z.lxor b b').
    assert (He : 0 <= e < 256) by (apply (lxor_range 8); lia).
    set (m := 24 - Z.of_nat n).
    assert (Hm : 0 <= m) by lia.
    assert (HP : 0 < 2 ^ m) by (apply Z.pow_pos_nonneg; lia).
    assert (Hpow : 2 ^ (32 - Z.of_nat n) = 256 * 2 ^ m).
    { replace (32 - Z.of_nat n) with (8 + m) by lia.
      rewrite Z.pow_add_r by lia. reflexivity. }
    assert (Hpow2 : 2 ^ m * 2 ^ Z.of_nat n = 2 ^ 24).
    { rewrite <- Z.pow_add_r by lia. f_equal. lia. }
    set (x := e * 2 ^ m).
    assert (Hx : 0 <= x < 2 ^ (32 - Z.of_nat n)) by (rewrite Hpow; nia).
    assert (Hx24 : x * 2 ^ Z.of_nat n = e * 2 ^ 24)
      by (unfold x; rewrite <- Z.mul_assoc, Hpow2; reflexivity).
    assert (HRx : for_range n crc_round x = Z.shiftl e 24).
    { rewrite for_range_small; [| lia | rewrite Hx24; lia].
      rewrite Hx24, Z.shiftl_mul_pow2 by lia. reflexivity. }
    assert (HXx : Z.lxor X x = X + x)
      by (apply (lxor_disjoint_add X x (32 - Z.of_nat n)); [lia | | ]; assumption).
    assert (Hx32 : 0 <= x < 2 ^ 32).
    { assert (1 <= 2 ^ Z.of_nat n) by (apply Z.pow_le_mono_r with (b := 0); lia).
      nia. }
    assert (Hsum : 0 <= X + x < 2 ^ 32)
      by (rewrite <- HXx; apply (lxor_range 32); lia).
    assert (Hlow' : (X + x) mod 2 ^ (32 - Z.of_nat (n + 8)) = 0).
    { replace (32 - Z.of_nat (n + 8)) with m by lia.
      rewrite Hpow in Hlow.
      apply Z.div_exact in Hlow; [| lia].
      remember (X / (256 * 2 ^ m)) as q eqn:Hq.
      replace (X + x) with ((256 * q + e) * 2 ^ m)
        by (rewrite Hlow; unfold x; ring).
      apply Z.mod_mul. lia. }
    assert (Hdiff' :
      Z.lxor (for_range 8 crc_round (Z.lxor s (Z.shiftl b 24)))
             (for_range 8 crc_round (Z.lxor s' (Z.shiftl b' 24))) =
        for_range (n + 8) crc_round (X + x)).
    { rewrite <- for_range_lxor, for_range_add. f_equal.
      rewrite <- HXx, for_range_lxor, <- Hdiff, HRx.
      unfold e. rewrite Z.shiftl_lxor. apply lxor_swap4. }
    destruct (IH w' (n + 8)%nat (X + x) _ _ Hlen ltac:(lia) Hw Hw'
                (for_range_S_range _ _) (for_range_S_range _ _)
                Hsum Hlow' Hdiff' Heq) as [H0 ->].
    assert (HX0 : X = 0) by lia.
    assert (Hx0 : x = 0) by lia.
    split; [exact HX0 |].
    assert (He0 : e = 0) by (unfold x in Hx0; nia).
    f_equal. apply Z.lxor_eq. exact He0.
Qed.

(** Two byte sequences that agree outside a window of at most four bytes
    and differ inside it have different CRCs. *)
Lemma crc_of_window (p w w' r : list Z) :
  is_bytes p -> is_bytes w -> is_bytes w' -> is_bytes r ->
  length w = length w' -> (length w <= 4)%nat -> w <> w' ->
  crc_of (p ++ w ++ r) <> crc_of (p ++ w' ++ r).
Proof.
  intros Hp Hw Hw' Hr Hlen Hfit Hne Heq. apply Hne.
  unfold crc_of in Heq. apply lxor_cancel_r in Heq.
  rewrite !register_after_app in Heq.
  set (s := register_after p INITIAL_VALUE) in *.
  assert (Hs : 0 <= s < 2 ^ 32)
    by (apply register_after_range, initial_value_range).
  apply register_after_inj in Heq;
    [| exact Hr | apply register_after_range, Hs ..].
  apply (window_registers_differ w w' 0 0 s s); try assumption; try lia.
  - rewrite Z.mod_0_l; [reflexivity | cbn; lia].
  - cbn. apply Z.lxor_nilpotent.
Qed.

End Detection.

(** * Further properties of the calculator *)

Section Extras.

Lemma is_small_intsb_complete (data : list Z) :
  is_small_ints data -> is_small_intsb data = true.
Proof.
  unfold is_small_intsb, is_small_ints. rewrite forallb_forall, Forall_forall.
  intros H x Hin. specialize (H x Hin). lia.
Qed.

Lemma complement_cancels (reg : Z) :
  Z.lxor (Z.lxor reg FINAL_XOR) 0xFFFFFFFF = reg.
Proof.
  unfold FINAL_XOR. rewrite Z.lxor_assoc, Z.lxor_nilpotent. apply Z.lxor_0_r.
Qed.

Lemma fcs_of_register (data : list Z) :
  fcs_of data = register_after data INITIAL_VALUE.
Proof. unfold fcs_of, crc_of. apply complement_cancels. Qed.

(** X1. The bit-wise strategy never raises: for every list of integers,
    bytes or not, and on any calculator, it returns a value in [0, 2^32),
    and that value depends only on the low eight bits of each element. *)
Theorem direct_strategy_total (data : list Z) (self : CRC32Calculator) :
  exists crc,
    calculate_crc data false self = (Ok crc, self) /\
    0 <= crc < 2 ^ 32 /\
    calculate_crc (low8 data) false self = (Ok crc, self).
Proof.
  exists (crc_of data). cbn [calculate_crc].
  rewrite !calculate_crc_direct_run, <- crc_of_low8.
  repeat split; apply crc_of_range.
Qed.

(** X2. On integers in [-256, 256) the two strategies still agree: a
    negative element makes the table index negative, Python counts it from
    the end of the table, and the entry reached is the one of the element's
    low eight bits. *)
Theorem strategies_agree_small_ints (d : list Z) :
  is_small_ints d ->
  exists crc,
    calculate_crc d true __init__ = (Ok crc, __init__) /\
    calculate_crc d false __init__ = (Ok crc, __init__) /\
    calculate_crc (low8 d) true __init__ = (Ok crc, __init__).
Proof.
  intros Hd. exists (crc_of d). repeat split.
  - cbn [calculate_crc]. unfold _calculate_crc_table, bind.
    rewrite table_loop_small by (auto using initial_value_range).
    reflexivity.
  - apply calculate_crc_direct_run.
  - rewrite crc_of_low8. apply calculate_crc_run, is_bytes_low8.
Qed.

Lemma strategies_agree_small_ints_witness :
  is_small_ints [-1; 72; -128; 255] /\
  exists crc,
    calculate_crc [-1; 72; -128; 255] true __init__ = (Ok crc, __init__) /\
    calculate_crc [-1; 72; -128; 255] false __init__ = (Ok crc, __init__) /\
    calculate_crc (low8 [-1; 72; -128; 255]) true __init__ =
      (Ok crc, __init__).
Proof.
  split.
  - apply is_small_intsb_sound. reflexivity.
  - apply (strategies_agree_small_ints [-1; 72; -128; 255]).
    apply is_small_intsb_sound. reflexivity.
Defined.

(** X3. The table-driven strategy raises [IndexError] exactly when some
    element of the data lies outside [-256, 256). *)
Theorem table_strategy_raises_iff (d : list Z) :
  calculate_crc d true __init__ = (Raise IndexError, __init__) <->
  ~ is_small_ints d.
Proof.
  cbn [calculate_crc]. unfold _calculate_crc_table, bind. split.
  - intros Hraise Hd.
    rewrite table_loop_small in Hraise by (auto using initial_value_range).
    discriminate Hraise.
  - intros Hbad.
    rewrite table_loop_raises by (auto using initial_value_range).
    reflexivity.
Qed.

(** X4. An [IndexError] of the table lookup is not caught on the way up:
    on data with an element outside [-256, 256), [calculate_fcs] and
    [validate_frame] raise it too, whatever FCS was received, although the
    bit-wise strategy has a value for the same data. *)
Theorem index_error_propagates (d : list Z) (received_fcs : Z) :
  ~ is_small_ints d ->
  calculate_fcs d __init__ = (Raise IndexError, __init__) /\
  validate_frame d received_fcs __init__ = (Raise IndexError, __init__) /\
  exists crc, calculate_crc d false __init__ = (Ok crc, __init__).
Proof.
  intros Hbad.
  unfold validate_frame, calculate_fcs, bind. cbn [calculate_crc].
  unfold _calculate_crc_table, bind.
  rewrite table_loop_raises by (auto using initial_value_range).
  repeat split. exists (crc_of d). apply calculate_crc_direct_run.
Qed.

Lemma index_error_propagates_witness :
  ~ is_small_ints [72; 300] /\
  calculate_fcs [72; 300] __init__ = (Raise IndexError, __init__) /\
  validate_frame [72; 300] 0 __init__ = (Raise IndexError, __init__) /\
  exists crc, calculate_crc [72; 300] false __init__ = (Ok crc, __init__).
Proof.
  assert (Hbad : ~ is_small_ints [72; 300]).
  { intros H. apply is_small_intsb_complete in H. discriminate H. }
  split.
  - exact Hbad.
  - exact (index_error_propagates [72; 300] 0 Hbad).
Defined.

(** X5. A corruption confined to at most four consecutive bytes of the
    data is always detected: if the received data differs from the sent data
    only inside such a window, its CRC differs and [validate_frame] against
    the FCS of the sent data reports an invalid frame. *)
Theorem corrupted_window_detected (p w w' r : list Z) :
  is_bytes p -> is_bytes w -> is_bytes w' -> is_bytes r ->
  length w = length w' -> (length w <= 4)%nat -> w <> w' ->
  exists crc fcs crc' fcs',
    calculate_fcs (p ++ w ++ r) __init__ = (Ok (crc, fcs), __init__) /\
    validate_frame (p ++ w' ++ r) fcs __init__ =
      (Ok (false, crc', fcs'), __init__) /\
    crc' <> crc.
Proof.
  intros Hp Hw Hw' Hr Hlen Hfit Hne.
  assert (Hd : is_bytes (p ++ w ++ r))
    by (unfold is_bytes in *; rewrite !Forall_app; auto).
  assert (Hd' : is_bytes (p ++ w' ++ r))
    by (unfold is_bytes in *; rewrite !Forall_app; auto).
  pose proof (crc_of_window p w w' r Hp Hw Hw' Hr Hlen Hfit Hne) as Hcrc.
  exists (crc_of (p ++ w ++ r)), (fcs_of (p ++ w ++ r)),
    (crc_of (p ++ w' ++ r)), (fcs_of (p ++ w' ++ r)).
  rewrite calculate_fcs_run, validate_frame_run by assumption.
  repeat split; [| congruence].
  destruct (Z.eqb_spec (fcs_of (p ++ w' ++ r)) (fcs_of (p ++ w ++ r)))
    as [Heq | _]; [| reflexivity].
  exfalso. apply Hcrc. unfold fcs_of in Heq.
  symmetry. exact (lxor_cancel_r _ _ _ Heq).
Qed.

Lemma corrupted_window_detected_witness :
  is_bytes [72] /\ is_bytes [69; 76] /\ is_bytes [96; 77] /\
  is_bytes [76; 79] /\
  length [69; 76] = length [96; 77] /\ (length [69; 76] <= 4)%nat /\
  [69; 76] <> [96; 77] /\
  exists crc fcs crc' fcs',
    calculate_fcs ([72] ++ [69; 76] ++ [76; 79]) __init__ =
      (Ok (crc, fcs), __init__) /\
    validate_frame ([72] ++ [96; 77] ++ [76; 79]) fcs __init__ =
      (Ok (false, crc', fcs'), __init__) /\
    crc' <> crc.
Proof.
  assert (H1 : is_bytes [72]) by (apply is_bytesb_sound; reflexivity).
  assert (H2 : is_bytes [69; 76]) by (apply is_bytesb_sound; reflexivity).
  assert (H3 : is_bytes [96; 77]) by (apply is_bytesb_sound; reflexivity).
  assert (H4 : is_bytes [76; 79]) by (apply is_bytesb_sound; reflexivity).
  assert (H5 : length [69; 76] = length [96; 77]) by reflexivity.
  assert (H6 : (length [69; 76] <= 4)%nat) by (simpl; lia).
  assert (H7 : [69; 76] <> [96; 77]) by discriminate.
  repeat (split; [assumption |]).
  exact (corrupted_window_detected [72] [69; 76] [96; 77] [76; 79]
           H1 H2 H3 H4 H5 H6 H7).
Defined.

(** X6. The FCS that [calculate_fcs] returns is the register as the loop
    leaves it: the final XOR with 0xFFFFFFFF and the complement cancel. *)
Theorem fcs_is_loop_register (d : list Z) :
  is_bytes d ->
  exists crc fcs,
    calculate_fcs d __init__ = (Ok (crc, fcs), __init__) /\
    for_each d table_body INITIAL_VALUE __init__ = (Ok fcs, __init__) /\
    for_each d direct_body INITIAL_VALUE __init__ = (Ok fcs, __init__).
Proof.
  intros Hd. exists (crc_of d), (fcs_of d).
  rewrite calculate_fcs_run, table_loop, direct_loop
    by (auto using initial_value_range).
  rewrite fcs_of_register. repeat split.
Qed.

Lemma fcs_is_loop_register_witness :
  is_bytes HELLO /\
  exists crc fcs,
    calculate_fcs HELLO __init__ = (Ok (crc, fcs), __init__) /\
    for_each HELLO table_body INITIAL_VALUE __init__ = (Ok fcs, __init__) /\
    for_each HELLO direct_body INITIAL_VALUE __init__ = (Ok fcs, __init__).
Proof.
  split.
  - apply is_bytesb_sound. reflexivity.
  - apply (fcs_is_loop_register HELLO). apply is_bytesb_sound. reflexivity.
Defined.

(** X7. The computation can be resumed: running either loop over [q] from
    the FCS of [p] as register leaves the FCS of [p ++ q], and its
    complement is the CRC of [p ++ q]. *)
Theorem fcs_resumes_over_concatenation (p q : list Z) :
  is_bytes p -> is_bytes q ->
  exists crc_p fcs_p crc_pq fcs_pq,
    calculate_fcs p __init__ = (Ok (crc_p, fcs_p), __init__) /\
    calculate_fcs (p ++ q) __init__ = (Ok (crc_pq, fcs_pq), __init__) /\
    for_each q table_body fcs_p __init__ = (Ok fcs_pq, __init__) /\
    for_each q direct_body fcs_p __init__ = (Ok fcs_pq, __init__) /\
    crc_pq = Z.lxor fcs_pq 0xFFFFFFFF.
Proof.
  intros Hp Hq.
  assert (Hpq : is_bytes (p ++ q))
    by (unfold is_bytes in *; rewrite Forall_app; auto).
  exists (crc_of p), (fcs_of p), (crc_of (p ++ q)), (fcs_of (p ++ q)).
  rewrite !calculate_fcs_run by assumption.
  rewrite !fcs_of_register, register_after_app.
  rewrite table_loop, direct_loop
    by (auto using register_after_range, initial_value_range).
  repeat split.
  unfold crc_of. rewrite register_after_app. reflexivity.
Qed.

Lemma fcs_resumes_over_concatenation_witness :
  is_bytes [72; 69] /\ is_bytes [76; 76; 79] /\
  exists crc_p fcs_p crc_pq fcs_pq,
    calculate_fcs [72; 69] __init__ = (Ok (crc_p, fcs_p), __init__) /\
    calculate_fcs ([72; 69] ++ [76; 76; 79]) __init__ =
      (Ok (crc_pq, fcs_pq), __init__) /\
    for_each [76; 76; 79] table_body fcs_p __init__ = (Ok fcs_pq, __init__) /\
    for_each [76; 76; 79] direct_body fcs_p __init__ = (Ok fcs_pq, __init__) /\
    crc_pq = Z.lxor fcs_pq 0xFFFFFFFF.
Proof.
  assert (H1 : is_bytes [72; 69]) by (apply is_bytesb_sound; reflexivity).
  assert (H2 : is_bytes [76; 76; 79]) by (apply is_bytesb_sound; reflexivity).
  repeat (split; [assumption |]).
  exact (fcs_resumes_over_concatenation [72; 69] [76; 76; 79] H1 H2).
Defined.

Lemma lxor_ones_sub (c : Z) :
  0 <= c < 2 ^ 32 -> Z.lxor c 0xFFFFFFFF = 0xFFFFFFFF - c.
Proof.
  intros Hc.
  assert (Hsum : c + Z.lxor c 0xFFFFFFFF = 0xFFFFFFFF).
  { rewrite Z.add_nocarry_lxor.
    - rewrite <- Z.lxor_assoc, Z.lxor_nilpotent. apply Z.lxor_0_l.
    - apply Z.bits_inj'. intros j Hj.
      rewrite Z.land_spec, Z.lxor_spec, Z.bits_0.
      change 0xFFFFFFFF with (Z.ones 32).
      rewrite Z.testbit_ones_nonneg by lia.
      destruct (Z.ltb_spec j 32) as [Hlt | Hge].
      + destruct (Z.testbit c j); reflexivity.
      + rewrite (testbit_above c 32 j) by lia. reflexivity. }
  lia.
Qed.

(** X8. On the values returned, the complement is a subtraction:
    [fcs = 0xFFFFFFFF - crc].  The two are never equal, so a caller that
    passes the CRC where the FCS is expected is always told the frame is
    invalid. *)
Theorem fcs_is_arithmetic_complement (d : list Z) :
  is_bytes d ->
  exists crc fcs,
    calculate_fcs d __init__ = (Ok (crc, fcs), __init__) /\
    fcs = 0xFFFFFFFF - crc /\
    fcs <> crc /\
    validate_frame d crc __init__ = (Ok (false, crc, fcs), __init__).
Proof.
  intros Hd. exists (crc_of d), (fcs_of d).
  rewrite calculate_fcs_run, validate_frame_run by assumption.
  pose proof (crc_of_range d) as Hc.
  assert (Hsub : fcs_of d = 0xFFFFFFFF - crc_of d)
    by (apply lxor_ones_sub, Hc).
  assert (Hne : fcs_of d <> crc_of d) by lia.
  repeat split; try assumption.
  destruct (Z.eqb_spec (fcs_of d) (crc_of d)); [contradiction | reflexivity].
Qed.

Lemma fcs_is_arithmetic_complement_witness :
  is_bytes HELLO /\
  exists crc fcs,
    calculate_fcs HELLO __init__ = (Ok (crc, fcs), __init__) /\
    fcs = 0xFFFFFFFF - crc /\
    fcs <> crc /\
    validate_frame HELLO crc __init__ = (Ok (false, crc, fcs), __init__).
Proof.
  split.
  - apply is_bytesb_sound. reflexivity.
  - apply (fcs_is_arithmetic_complement HELLO).
    apply is_bytesb_sound. reflexivity.
Defined.

Lemma table_entry_inj (i j : Z) :
  0 <= i < 256 -> 0 <= j < 256 -> table_entry i = table_entry j -> i = j.
Proof.
  intros Hi Hj Heq. unfold table_entry in Heq.
  apply for_range_inj in Heq; try (apply byte_shift_range; assumption).
  rewrite !Z.shiftl_mul_pow2 in Heq by lia. lia.
Qed.

(** X9. The table a calculator is constructed with holds pairwise distinct
    entries, each within 32 bits. *)
Theorem table_entries_distinct_32_bit :
  NoDup (crc_table __init__) /\
  Forall (fun entry => 0 <= entry < 2 ^ 32) (crc_table __init__).
Proof.
  cbn [crc_table __init__]. split.
  - apply NoDup_nth_error. intros i j Hi Heq.
    rewrite generate_crc_table_length in Hi.
    assert (Hj : (j < 256)%nat).
    { rewrite <- generate_crc_table_length. apply nth_error_Some.
      rewrite <- Heq. apply nth_error_Some.
      rewrite generate_crc_table_length. exact Hi. }
    rewrite <- (Nat2Z.id i), <- (Nat2Z.id j) in Heq.
    rewrite !generate_crc_table_nth in Heq by lia.
    injection Heq as Heq. apply table_entry_inj in Heq; lia.
  - rewrite generate_crc_table_map. apply Forall_forall. intros e Hin.
    apply in_map_iff in Hin. destruct Hin as (i & <- & _).
    apply table_entry_range.
Qed.

(** X10. The table is linear over XOR: the entry at [i XOR j] is the XOR
    of the entries at [i] and [j]. *)
Theorem table_xor_linear (i j : Z) :
  0 <= i < 256 -> 0 <= j < 256 ->
  exists entry_i entry_j,
    nth_error (crc_table __init__) (Z.to_nat i) = Some entry_i /\
    nth_error (crc_table __init__) (Z.to_nat j) = Some entry_j /\
    nth_error (crc_table __init__) (Z.to_nat (Z.lxor i j)) =
      Some (Z.lxor entry_i entry_j).
Proof.
  intros Hi Hj. exists (table_entry i), (table_entry j).
  cbn [crc_table __init__].
  rewrite !generate_crc_table_nth by (try apply (lxor_range 8); lia).
  repeat split. f_equal. unfold table_entry.
  rewrite Z.shiftl_lxor. apply for_range_lxor.
Qed.

Lemma table_xor_linear_witness :
  0 <= 5 < 256 /\ 0 <= 163 < 256 /\
  exists entry_i entry_j,
    nth_error (crc_table __init__) (Z.to_nat 5) = Some entry_i /\
    nth_error (crc_table __init__) (Z.to_nat 163) = Some entry_j /\
    nth_error (crc_table __init__) (Z.to_nat (Z.lxor 5 163)) =
      Some (Z.lxor entry_i entry_j).
Proof.
  assert (H1 : 0 <= 5 < 256) by lia.
  assert (H2 : 0 <= 163 < 256) by lia.
  repeat (split; [assumption |]).
  exact (table_xor_linear 5 163 H1 H2).
Defined.

Lemma lxor_flip (b m : Z) : Z.lxor (Z.lxor b m) b = m.
Proof.
  rewrite (Z.lxor_comm b m), Z.lxor_assoc, Z.lxor_nilpotent.
  apply Z.lxor_0_r.
Qed.

Lemma step_diff_mask (s s' b m delta : Z) :
  Z.lxor s s' = delta ->
  Z.lxor (for_range 8 crc_round (Z.lxor s (Z.shiftl (Z.lxor b m) 24)))
         (for_range 8 crc_round (Z.lxor s' (Z.shiftl b 24))) =
    for_range 8 crc_round (Z.lxor delta (Z.shiftl m 24)).
Proof.
  intros <-. rewrite <- for_range_lxor. f_equal.
  rewrite lxor_swap4, <- Z.shiftl_lxor, lxor_flip. reflexivity.
Qed.

(** Dividing the generator polynomial by itself, byte by byte. *)
Lemma generator_chain :
  for_range 8 crc_round (Z.lxor 0 (Z.shiftl 0x01 24)) = 0x04C11DB7 /\
  for_range 8 crc_round (Z.lxor 0x04C11DB7 (Z.shiftl 0x04 24)) = 0xC11DB700 /\
  for_range 8 crc_round (Z.lxor 0xC11DB700 (Z.shiftl 0xC1 24)) = 0x1DB70000 /\
  for_range 8 crc_round (Z.lxor 0x1DB70000 (Z.shiftl 0x1D 24)) = 0xB7000000 /\
  for_range 8 crc_round (Z.lxor 0xB7000000 (Z.shiftl 0xB7 24)) = 0.
Proof. vm_compute. repeat split. Qed.

Lemma generator_bytes_invisible (b0 b1 b2 b3 b4 s : Z) :
  register_after (xor_bytes [b0; b1; b2; b3; b4] GENERATOR_BYTES) s =
    register_after [b0; b1; b2; b3; b4] s.
Proof.
  destruct generator_chain as (G1 & G2 & G3 & G4 & G5).
  cbn [xor_bytes GENERATOR_BYTES combine map].
  rewrite !register_after_cons. unfold register_after. cbn [fold_left].
  apply Z.lxor_eq.
  pose proof (step_diff_mask s s b0 1 0 (Z.lxor_nilpotent s)) as H1.
  rewrite G1 in H1.
  pose proof (step_diff_mask _ _ b1 4 _ H1) as H2. rewrite G2 in H2.
  pose proof (step_diff_mask _ _ b2 193 _ H2) as H3. rewrite G3 in H3.
  pose proof (step_diff_mask _ _ b3 29 _ H3) as H4. rewrite G4 in H4.
  pose proof (step_diff_mask _ _ b4 183 _ H4) as H5. rewrite G5 in H5.
  exact H5.
Qed.

(** X11. Five bytes are too many: XORing the bytes 01 04 C1 1D B7 (the
    generator polynomial with its leading coefficient) onto any five
    consecutive bytes of the data changes the data but not the CRC, so
    [validate_frame] accepts the corrupted data with the original FCS. *)
Theorem undetected_five_byte_error (p w r : list Z) :
  is_bytes p -> is_bytes w -> is_bytes r -> length w = 5%nat ->
  is_bytes (xor_bytes w GENERATOR_BYTES) /\
  xor_bytes w GENERATOR_BYTES <> w /\
  exists crc fcs,
    calculate_fcs (p ++ w ++ r) __init__ = (Ok (crc, fcs), __init__) /\
    validate_frame (p ++ xor_bytes w GENERATOR_BYTES ++ r) fcs __init__ =
      (Ok (true, crc, fcs), __init__).
Proof.
  intros Hp Hw Hr Hlen.
  destruct w as [| b0 [| b1 [| b2 [| b3 [| b4 [| b5 w]]]]]];
    try discriminate Hlen.
  assert (Hw' : is_bytes (xor_bytes [b0; b1; b2; b3; b4] GENERATOR_BYTES)).
  { unfold is_bytes in *. cbn [xor_bytes GENERATOR_BYTES combine map].
    repeat match goal with
           | H : Forall _ (_ :: _) |- _ =>
               apply Forall_cons_iff in H; destruct H
           end.
    repeat (constructor; [apply (lxor_range 8); lia |]). constructor. }
  split; [exact Hw' |]. split.
  - cbn [xor_bytes GENERATOR_BYTES combine map]. intros Heq.
    injection Heq as Heq _ _ _ _.
    exact (flip_bit_neq b0 0 Heq).
  - assert (Hd : is_bytes (p ++ [b0; b1; b2; b3; b4] ++ r))
      by (unfold is_bytes in *; rewrite !Forall_app; auto).
    assert (Hd' : is_bytes
             (p ++ xor_bytes [b0; b1; b2; b3; b4] GENERATOR_BYTES ++ r))
      by (unfold is_bytes in *; rewrite !Forall_app; auto).
    assert (Hcrc :
      crc_of (p ++ xor_bytes [b0; b1; b2; b3; b4] GENERATOR_BYTES ++ r) =
        crc_of (p ++ [b0; b1; b2; b3; b4] ++ r)).
    { unfold crc_of. rewrite !register_after_app.
      rewrite generator_bytes_invisible. reflexivity. }
    exists (crc_of (p ++ [b0; b1; b2; b3; b4] ++ r)),
      (fcs_of (p ++ [b0; b1; b2; b3; b4] ++ r)).
    rewrite calculate_fcs_run, validate_frame_run by assumption.
    unfold fcs_of. rewrite Hcrc, Z.eqb_refl. split; reflexivity.
Qed.

Lemma undetected_five_byte_error_witness :
  is_bytes [72] /\ is_bytes [69; 76; 76; 79; 33] /\ is_bytes [] /\
  length [69; 76; 76; 79; 33] = 5%nat /\
  is_bytes (xor_bytes [69; 76; 76; 79; 33] GENERATOR_BYTES) /\
  xor_bytes [69; 76; 76; 79; 33] GENERATOR_BYTES <> [69; 76; 76; 79; 33] /\
  exists crc fcs,
    calculate_fcs ([72] ++ [69; 76; 76; 79; 33] ++ []) __init__ =
      (Ok (crc, fcs), __init__) /\
    validate_frame
      ([72] ++ xor_bytes [69; 76; 76; 79; 33] GENERATOR_BYTES ++ []) fcs
      __init__ = (Ok (true, crc, fcs), __init__).
Proof.
  assert (H1 : is_bytes [72]) by (apply is_bytesb_sound; reflexivity).
  assert (H2 : is_bytes [69; 76; 76; 79; 33])
    by (apply is_bytesb_sound; reflexivity).
  assert (H3 : is_bytes []) by constructor.
  assert (H4 : length [69; 76; 76; 79; 33] = 5%nat) by reflexivity.
  repeat (split; [assumption |]).
  exact (undetected_five_byte_error [72] [69; 76; 76; 79; 33] [] H1 H2 H3 H4).
Defined.

(** The corrupted frame of the last witness, evaluated. *)
Example undetected_error_values :
  xor_bytes [69; 76; 76; 79; 33] GENERATOR_BYTES = [68; 72; 141; 82; 150] /\
  fst (calculate_crc [72; 69; 76; 76; 79; 33] true __init__) =
    fst (calculate_crc [72; 68; 72; 141; 82; 150] true __init__).
Proof. vm_compute. split; reflexivity. Qed.

(** X12. A common suffix neither creates nor removes a collision: for
    byte sequences [p] and [p'] of any lengths and a suffix [r], the CRCs of
    [p ++ r] and [p' ++ r] are equal exactly when the CRCs of [p] and [p']
    are. *)
Theorem common_suffix_keeps_collisions (p p' r : list Z) (use_table : bool) :
  is_bytes p -> is_bytes p' -> is_bytes r ->
  exists crc_p crc_p' crc_pr crc_p'r,
    calculate_crc p use_table __init__ = (Ok crc_p, __init__) /\
    calculate_crc p' use_table __init__ = (Ok crc_p', __init__) /\
    calculate_crc (p ++ r) use_table __init__ = (Ok crc_pr, __init__) /\
    calculate_crc (p' ++ r) use_table __init__ = (Ok crc_p'r, __init__) /\
    (crc_pr = crc_p'r <-> crc_p = crc_p').
Proof.
  intros Hp Hp' Hr.
  assert (Hpr : is_bytes (p ++ r))
    by (unfold is_bytes in *; rewrite Forall_app; auto).
  assert (Hp'r : is_bytes (p' ++ r))
    by (unfold is_bytes in *; rewrite Forall_app; auto).
  exists (crc_of p), (crc_of p'), (crc_of (p ++ r)), (crc_of (p' ++ r)).
  rewrite !calculate_crc_run by assumption.
  repeat split.
  - unfold crc_of. rewrite !register_after_app. intros Heq.
    apply lxor_cancel_r in Heq.
    apply register_after_inj in Heq;
      try apply register_after_range; auto using initial_value_range.
    rewrite Heq. reflexivity.
  - unfold crc_of. rewrite !register_after_app. intros Heq.
    apply lxor_cancel_r in Heq. rewrite Heq. reflexivity.
Qed.

Lemma common_suffix_keeps_collisions_witness :
  is_bytes [72; 69] /\ is_bytes [1; 2; 3] /\ is_bytes [76; 79] /\
  exists crc_p crc_p' crc_pr crc_p'r,
    calculate_crc [72; 69] true __init__ = (Ok crc_p, __init__) /\
    calculate_crc [1; 2; 3] true __init__ = (Ok crc_p', __init__) /\
    calculate_crc ([72; 69] ++ [76; 79]) true __init__ =
      (Ok crc_pr, __init__) /\
    calculate_crc ([1; 2; 3] ++ [76; 79]) true __init__ =
      (Ok crc_p'r, __init__) /\
    (crc_pr = crc_p'r <-> crc_p = crc_p').
Proof.
  assert (H1 : is_bytes [72; 69]) by (apply is_bytesb_sound; reflexivity).
  assert (H2 : is_bytes [1; 2; 3]) by (apply is_bytesb_sound; reflexivity).
  assert (H3 : is_bytes [76; 79]) by (apply is_bytesb_sound; reflexivity).
  repeat (split; [assumption |]).
  exact (common_suffix_keeps_collisions [72; 69] [1; 2; 3] [76; 79] true
           H1 H2 H3).
Defined.

End Extras.
